(** * Newton–Raphson root finder ([my_newton.py])

    Shallow embedding of [my_newton] from
    [Numeric Methods/Newton–Raphson/my_newton.py].  Python floats are
    IEEE-754 binary64, modelled by Rocq's primitive floats; the sympy
    expression and its services (free symbols, [sp.diff], [sp.lambdify])
    are the parameters of the development, and a small concrete backend is
    given at the end for the tests of [test_my_newton.py]. *)

From Stdlib Require Import String List Bool ZArith Lia.
From Stdlib Require Import Floats.
Import ListNotations.

(** Python's default [tol=1e-6], as the binary64 value the literal denotes. *)
Definition default_tol : float := 0x1.0c6f7a0b5ed8dp-20%float.

(** Outcome of a call: the returned list [xn], or one of the two exceptions
    ([ZeroDivisionError] for a zero derivative, [ValueError] when the loop
    runs out). *)
Inductive outcome :=
| Ok (xn : list float)
| ZeroDerivative
| NonConvergence.

(** Python's negative indexing [xn[-1]] and [xn[-2]]; the default is never
    reached on the lists the loop builds. *)
Definition py_last (xn : list float) : float := nth (length xn - 1) xn nan.
Definition py_second_last (xn : list float) : float := nth (length xn - 2) xn nan.

Section Loop.
(** [f] and [df] are the lambdified function and derivative, [tol] the
    tolerance. *)
Variables (f df : float -> float) (tol : float).

(** The [for _ in range(max_iter)] loop, lines 13-21, with the remaining
    number of rounds as fuel. *)
Fixpoint newton_loop (fuel : nat) (xn : list float) : outcome :=
  match fuel with
  | O => NonConvergence
  | S k =>
      if (df (py_last xn) =? 0)%float then ZeroDerivative
      else
        let x_new := (py_last xn - (f (py_last xn) / df (py_last xn)))%float in
        let xn' := xn ++ [x_new] in
        if (abs (x_new - py_second_last xn') <? tol)%float then Ok xn'
        else newton_loop k xn'
  end.

(** The Newton update of one round, and the [n]-th unguarded iterate. *)
Definition newton_update (x : float) : float := (x - (f x / df x))%float.

Fixpoint newton_iter (n : nat) (x : float) : float :=
  match n with
  | O => x
  | S m => newton_iter m (newton_update x)
  end.

(** The sequence [x, u x, ..., u^n x] of the first [n] rounds. *)
Fixpoint trajectory (n : nat) (x : float) : list float :=
  x :: match n with
       | O => []
       | S m => trajectory m (newton_update x)
       end.
End Loop.

Section Newton.
(** The symbolic backend: expressions, their free symbols in the order
    [list(f_expr.free_symbols)] enumerates them, differentiation and
    numeric evaluation. *)
Variable Expr : Type.
Variable free_symbols : Expr -> list string.
Variable diff : Expr -> string -> Expr.
Variable lambdify : string -> Expr -> float -> float.

(** Line 7: [x = free_syms[0] if free_syms else sp.symbols('x')]. *)
Definition select_var (f_expr : Expr) : string :=
  match free_symbols f_expr with
  | x :: _ => x
  | [] => "x"%string
  end.

(** Lines 4-21.  [range(max_iter)] is empty for [max_iter <= 0]. *)
Definition my_newton (f_expr : Expr) (x0 tol : float) (max_iter : Z) : outcome :=
  let x := select_var f_expr in
  let f := lambdify x f_expr in
  let df := lambdify x (diff f_expr x) in
  let xn := [x0] in
  newton_loop f df tol (Z.to_nat max_iter) xn.
End Newton.


(** ** Observable steps and the big-step semantics of the loop *)

(** The calls to the evaluators and the appends one round performs, in the
    order of lines 14-17. *)
Inductive event :=
| EvalDf (x : float)
| EvalF (x : float)
| Append (x : float).

Section Traced.
Variables (f df : float -> float) (tol : float).

Fixpoint newton_loop_traced (fuel : nat) (xn : list float) : outcome * list event :=
  match fuel with
  | O => (NonConvergence, [])
  | S k =>
      let x := py_last xn in
      if (df x =? 0)%float then (ZeroDerivative, [EvalDf x])
      else
        let x_new := (x - (f x / df x))%float in
        let xn' := xn ++ [x_new] in
        let evs := [EvalDf x; EvalF x; EvalDf x; Append x_new] in
        if (abs (x_new - py_second_last xn') <? tol)%float then (Ok xn', evs)
        else let (r, evs') := newton_loop_traced k xn' in (r, evs ++ evs')
  end.

(** The loop as a big-step relation: one rule per way a round ends. *)
Inductive newton_run : nat -> list float -> outcome -> Prop :=
| run_exhausted xn :
    newton_run O xn NonConvergence
| run_zero k xn :
    (df (py_last xn) =? 0)%float = true ->
    newton_run (S k) xn ZeroDerivative
| run_converged k xn x_new :
    (df (py_last xn) =? 0)%float = false ->
    x_new = (py_last xn - (f (py_last xn) / df (py_last xn)))%float ->
    (abs (x_new - py_second_last (xn ++ [x_new])) <? tol)%float = true ->
    newton_run (S k) xn (Ok (xn ++ [x_new]))
| run_continue k xn x_new r :
    (df (py_last xn) =? 0)%float = false ->
    x_new = (py_last xn - (f (py_last xn) / df (py_last xn)))%float ->
    (abs (x_new - py_second_last (xn ++ [x_new])) <? tol)%float = false ->
    newton_run k (xn ++ [x_new]) r ->
    newton_run (S k) xn r.
End Traced.

Section NewtonParts.
Variable Expr : Type.
Variable free_symbols : Expr -> list string.
Variable diff : Expr -> string -> Expr.
Variable lambdify : string -> Expr -> float -> float.

(** Lines 8 and 9: the lambdified function and derivative. *)
Definition newton_f (f_expr : Expr) : float -> float :=
  lambdify (select_var Expr free_symbols f_expr) f_expr.
Definition newton_df (f_expr : Expr) : float -> float :=
  let x := select_var Expr free_symbols f_expr in lambdify x (diff f_expr x).

Definition my_newton_traced (f_expr : Expr) (x0 tol : float) (max_iter : Z)
  : outcome * list event :=
  newton_loop_traced (newton_f f_expr) (newton_df f_expr) tol (Z.to_nat max_iter) [x0].

Definition my_newton_run (f_expr : Expr) (x0 tol : float) (max_iter : Z) (r : outcome) : Prop :=
  newton_run (newton_f f_expr) (newton_df f_expr) tol (Z.to_nat max_iter) [x0] r.
End NewtonParts.

(** Number of appends to [xn] in a trace. *)
Definition is_append (ev : event) : bool :=
  match ev with Append _ => true | _ => false end.
Definition appends (evs : list event) : nat := length (filter is_append evs).

(** The points at which [f] is evaluated, in the order of a trace. *)
Definition f_points (evs : list event) : list float :=
  flat_map (fun ev => match ev with EvalF x => [x] | _ => [] end) evs.

(** The order [SFcompare] puts on non-nan values, as a lexicographic order
    on integer triples: the class (negative infinity, negative, zero,
    positive, positive infinity), then exponent and mantissa (negated for
    negative values). *)
Definition sf_key (a : spec_float) : Z * Z * Z :=
  match a with
  | S754_infinity true => (0, 0, 0)%Z
  | S754_finite true m e => (1, - e, - Zpos m)%Z
  | S754_zero _ => (2, 0, 0)%Z
  | S754_finite false m e => (3, e, Zpos m)%Z
  | S754_infinity false => (4, 0, 0)%Z
  | S754_nan => (0, 0, 0)%Z
  end.

Definition lex_compare (a b : Z * Z * Z) : comparison :=
  let '(a1, a2, a3) := a in
  let '(b1, b2, b3) := b in
  match Z.compare a1 b1 with
  | Eq => match Z.compare a2 b2 with Eq => Z.compare a3 b3 | c => c end
  | c => c
  end.

Definition prepend (xs : list float) (r : outcome) : outcome :=
  match r with
  | Ok ys => Ok (xs ++ ys)
  | _ => r
  end.

Definition sf_finite (s : spec_float) : bool :=
  match s with
  | S754_zero _ | S754_finite _ _ _ => true
  | _ => false
  end.

(** [fin x]: [x] is neither an infinity nor a nan. *)
Definition fin (x : float) : bool := sf_finite (Prim2SF x).

(** ** A concrete backend, for the tests *)
Module Sym.
Inductive expr :=
| Var (s : string)
| Num (c : float)
| Add (a b : expr)
| Sub (a b : expr)
| Mul (a b : expr).

Fixpoint symbols (e : expr) : list string :=
  match e with
  | Var s => [s]
  | Num _ => []
  | Add a b | Sub a b | Mul a b => symbols a ++ symbols b
  end.

Fixpoint dedup (l : list string) : list string :=
  match l with
  | [] => []
  | s :: r => s :: filter (fun t => negb (String.eqb s t)) (dedup r)
  end.

Definition free_symbols (e : expr) : list string := dedup (symbols e).

Fixpoint diff (e : expr) (x : string) : expr :=
  match e with
  | Var s => Num (if String.eqb s x then 1 else 0)%float
  | Num _ => Num 0%float
  | Add a b => Add (diff a x) (diff b x)
  | Sub a b => Sub (diff a x) (diff b x)
  | Mul a b => Add (Mul (diff a x) b) (Mul a (diff b x))
  end.

(** Evaluation with [x] bound to [v]; other symbols evaluate to nan. *)
Fixpoint lambdify (x : string) (e : expr) (v : float) : float :=
  match e with
  | Var s => if String.eqb s x then v else nan
  | Num c => c
  | Add a b => (lambdify x a v + lambdify x b v)%float
  | Sub a b => (lambdify x a v - lambdify x b v)%float
  | Mul a b => (lambdify x a v * lambdify x b v)%float
  end.

Definition run := my_newton expr free_symbols diff lambdify.

Definition traced := my_newton_traced expr free_symbols diff lambdify.
Definition run_rel := my_newton_run expr free_symbols diff lambdify.
Definition nf := newton_f expr free_symbols lambdify.
Definition ndf := newton_df expr free_symbols diff lambdify.

Definition X := Var "x".
Definition quadratic := Sub (Mul X X) (Num 4%float).
Definition cube := Mul X (Mul X X).
End Sym.

Example test_quadratic :
  match Sym.run Sym.quadratic 3%float default_tol 20 with
  | Ok xn => (abs (py_last xn - 2) <? default_tol)%float
  | _ => false
  end = true.
Proof. vm_compute. reflexivity. Qed.

Example test_constant : Sym.run (Sym.Num 2%float) 1%float default_tol 20 = ZeroDerivative.
Proof. vm_compute. reflexivity. Qed.

Example test_far_guess : Sym.run Sym.cube 1000%float default_tol 20 = NonConvergence.
Proof. vm_compute. reflexivity. Qed.

(** ** Structure of the loop *)

Lemma py_last_snoc (xs : list float) (x : float) : py_last (xs ++ [x]) = x.
Proof.
  unfold py_last. rewrite length_app. simpl.
  rewrite app_nth2 by lia. replace (length xs + 1 - 1 - length xs) with 0 by lia.
  reflexivity.
Qed.

Lemma py_second_last_snoc2 (xs : list float) (x y : float) :
  py_second_last ((xs ++ [x]) ++ [y]) = x.
Proof.
  unfold py_second_last. rewrite <- app_assoc, length_app. simpl.
  rewrite app_nth2 by lia. replace (length xs + 2 - 2 - length xs) with 0 by lia.
  reflexivity.
Qed.

Lemma nonempty_snoc (xn : list float) :
  xn <> [] -> exists xs x, xn = xs ++ [x].
Proof.
  intros H. destruct (exists_last H) as [xs [x E]]. eauto.
Qed.


Lemma prepend_app (xs ys : list float) (r : outcome) :
  prepend xs (prepend ys r) = prepend (xs ++ ys) r.
Proof. destruct r; simpl; rewrite ?app_assoc; reflexivity. Qed.

Section LoopFacts.
Variables (f df : float -> float) (tol : float).

Local Abbreviation loop := (newton_loop f df tol).
Local Abbreviation upd := (newton_update f df).

(** One round, read on the last element only. *)
Lemma newton_loop_snoc (k : nat) (xs : list float) (x : float) :
  loop (S k) (xs ++ [x]) =
  if (df x =? 0)%float then ZeroDerivative
  else if (abs (upd x - x) <? tol)%float then Ok (xs ++ [x; upd x])
  else loop k ((xs ++ [x]) ++ [upd x]).
Proof.
  simpl. rewrite py_last_snoc, py_second_last_snoc2.
  unfold newton_update. rewrite <- app_assoc. reflexivity.
Qed.

(** The loop only looks at the last element: the earlier ones are carried
    along. *)
Lemma newton_loop_app (fuel : nat) (xs : list float) (x : float) :
  loop fuel (xs ++ [x]) = prepend xs (loop fuel [x]).
Proof.
  revert xs x. induction fuel as [|k IH]; intros xs x; [reflexivity|].
  rewrite newton_loop_snoc.
  change [x] with ([] ++ [x]) at 2. rewrite newton_loop_snoc.
  destruct (df x =? 0)%float; [reflexivity|].
  destruct (abs (upd x - x) <? tol)%float; [reflexivity|].
  rewrite (IH (xs ++ [x])), (IH ([] ++ [x])), prepend_app. reflexivity.
Qed.

Lemma newton_loop_single (k : nat) (x : float) :
  loop (S k) [x] =
  if (df x =? 0)%float then ZeroDerivative
  else if (abs (upd x - x) <? tol)%float then Ok [x; upd x]
  else prepend [x] (loop k [upd x]).
Proof.
  change [x] with ([] ++ [x]) at 1. rewrite newton_loop_snoc.
  destruct (df x =? 0)%float; [reflexivity|].
  destruct (abs (upd x - x) <? tol)%float; [reflexivity|].
  apply newton_loop_app.
Qed.
End LoopFacts.

(** ** Binary64 facts, read through [Prim2SF] *)


Lemma Prim2SF_zero : Prim2SF 0%float = S754_zero false.
Proof. reflexivity. Qed.

(** Rounding never produces a nan from a nonnegative mantissa. *)
Lemma shr_1_nonneg (mrs : shr_record) :
  (0 <= shr_m mrs)%Z -> (0 <= shr_m (shr_1 mrs))%Z.
Proof.
  destruct mrs as [m r s']. simpl. intros H.
  destruct m as [|p|p]; simpl; try lia.
  destruct p; simpl; lia.
Qed.

Lemma iter_pos_preserves {A : Type} (P : A -> Prop) (g : A -> A) :
  (forall a, P a -> P (g a)) -> forall n a, P a -> P (iter_pos g n a).
Proof.
  intros Hg n. induction n as [n IH|n IH|]; intros a Ha; simpl; auto.
Qed.

Lemma shr_fexp_nonneg (p e0 : Z) (m e : Z) (l : location) :
  (0 <= m)%Z -> (0 <= shr_m (fst (shr_fexp p e0 m e l)))%Z.
Proof.
  intros Hm. unfold shr_fexp, shr.
  assert (H0 : (0 <= shr_m (shr_record_of_loc m l))%Z)
    by (destruct l as [|[]]; simpl; exact Hm).
  destruct (_ - _)%Z; simpl; auto.
  apply (iter_pos_preserves (fun r => (0 <= shr_m r)%Z)); auto using shr_1_nonneg.
Qed.

Lemma round_nearest_even_nonneg (mx : Z) (lx : location) :
  (0 <= mx)%Z -> (0 <= round_nearest_even mx lx)%Z.
Proof. intros H. destruct lx as [|[]]; simpl; try destruct (Z.even mx); lia. Qed.

Lemma binary_round_aux_not_nan (p e0 : Z) sx mx ex lx :
  (0 <= mx)%Z -> binary_round_aux p e0 sx mx ex lx <> S754_nan.
Proof.
  intros Hm. unfold binary_round_aux.
  pose proof (shr_fexp_nonneg p e0 mx ex lx Hm) as H1.
  destruct (shr_fexp p e0 mx ex lx) as [mrs' e'] eqn:E1. simpl in H1.
  pose proof (shr_fexp_nonneg p e0 (round_nearest_even (shr_m mrs') (loc_of_shr_record mrs')) e' loc_Exact
                (round_nearest_even_nonneg _ _ H1)) as H2.
  destruct (shr_fexp p e0 _ e' loc_Exact) as [mrs'' e''] eqn:E2. simpl in H2.
  destruct (shr_m mrs''); [discriminate| |lia].
  destruct (_ <=? _)%Z; discriminate.
Qed.

Lemma binary_normalize_not_nan (p e0 m e : Z) (sz : bool) :
  binary_normalize p e0 m e sz <> S754_nan.
Proof.
  unfold binary_normalize, binary_round.
  destruct m as [|q|q]; [discriminate| |];
    destruct (shl_align q e _) as [mz ez];
    apply binary_round_aux_not_nan; lia.
Qed.

Lemma sub_finite_not_nan (x y : float) :
  fin x = true -> fin y = true -> Prim2SF (x - y)%float <> S754_nan.
Proof.
  unfold fin. rewrite sub_spec. unfold SF64sub.
  destruct (Prim2SF x) as [sx|sx| |sx mx ex]; intros Hx; try discriminate Hx;
  destruct (Prim2SF y) as [sy|sy| |sy my ey]; intros Hy; try discriminate Hy;
  simpl; try (destruct sx, sy; discriminate).
  apply binary_normalize_not_nan.
Qed.

Lemma sub_nonfinite_l (x y : float) : fin x = false -> fin (x - y)%float = false.
Proof.
  unfold fin. rewrite sub_spec. unfold SF64sub.
  destruct (Prim2SF x) as [sx|sx| |sx mx ex]; intros Hx; try discriminate Hx;
  destruct (Prim2SF y) as [sy|sy| |sy my ey]; simpl; try reflexivity;
  destruct sx, sy; reflexivity.
Qed.

Lemma sub_nonfinite_r (x y : float) : fin y = false -> fin (x - y)%float = false.
Proof.
  unfold fin. rewrite sub_spec. unfold SF64sub.
  destruct (Prim2SF y) as [sy|sy| |sy my ey]; intros Hy; try discriminate Hy;
  destruct (Prim2SF x) as [sx|sx| |sx mx ex]; simpl; try reflexivity;
  destruct sx, sy; reflexivity.
Qed.

(** The convergence test fails on an infinite or nan difference. *)
Lemma abs_nonfinite_ltb (d t : float) : fin d = false -> (abs d <? t)%float = false.
Proof.
  unfold fin. rewrite ltb_spec, abs_spec.
  destruct (Prim2SF d); intros H; try discriminate H; simpl;
  unfold SFltb; destruct (Prim2SF t) as [[]|[]| |[] ? ?]; reflexivity.
Qed.

(** A successful convergence test implies a positive tolerance. *)
Lemma ltb_abs_tol_pos (d t : float) : (abs d <? t)%float = true -> (0 <? t)%float = true.
Proof.
  rewrite !ltb_spec, abs_spec, Prim2SF_zero.
  destruct (Prim2SF d) as [sd|sd| |sd md ed];
  destruct (Prim2SF t) as [[]|[]| |[] mt et]; simpl; try reflexivity; discriminate.
Qed.

Lemma ltb_abs_zero (d t : float) :
  Prim2SF d = S754_zero false -> (abs d <? t)%float = (0 <? t)%float.
Proof. intros H. rewrite !ltb_spec, abs_spec, H, Prim2SF_zero. reflexivity. Qed.

Lemma SFcompare_swap (a b : spec_float) :
  SFcompare b a = option_map CompOpp (SFcompare a b).
Proof.
  destruct a as [sa|sa| |sa ma ea], b as [sb|sb| |sb mb eb];
    try destruct sa; try destruct sb; simpl; try reflexivity;
  assert (Hm : Pos.compare_cont Eq mb ma = CompOpp (Pos.compare_cont Eq ma mb))
    by (rewrite Pos.compare_cont_antisym; reflexivity);
  rewrite Hm, (Z.compare_antisym ea eb);
  destruct (ea ?= eb)%Z, (Pos.compare_cont Eq ma mb); reflexivity.
Qed.

(** On non-nan values, a failed [<] is a [>=]. *)
Lemma ltb_false_leb (a t : float) :
  Prim2SF a <> S754_nan -> Prim2SF t <> S754_nan ->
  (a <? t)%float = false -> (t <=? a)%float = true.
Proof.
  rewrite ltb_spec, leb_spec. unfold SFltb, SFleb.
  rewrite (SFcompare_swap (Prim2SF a) (Prim2SF t)).
  intros Ha Ht H.
  destruct (SFcompare (Prim2SF a) (Prim2SF t)) as [[]|] eqn:E; simpl;
    try reflexivity; try discriminate H.
  exfalso. destruct (Prim2SF a), (Prim2SF t); simpl in E; congruence.
Qed.

Lemma abs_not_nan (d : float) :
  Prim2SF d <> S754_nan -> Prim2SF (abs d) <> S754_nan.
Proof. rewrite abs_spec. destruct (Prim2SF d); simpl; congruence. Qed.

Lemma ltb_pos_not_nan (t : float) : (0 <? t)%float = true -> Prim2SF t <> S754_nan.
Proof. rewrite ltb_spec, Prim2SF_zero. intros H E. rewrite E in H. discriminate. Qed.

(** The guard [df(x) == 0] holds exactly on the two zeros. *)
Lemma eqb_zero_iff (y : float) : (y =? 0)%float = true <-> y = 0%float \/ y = (-0)%float.
Proof.
  split.
  - rewrite eqb_spec, Prim2SF_zero. intros H.
    rewrite <- (SF2Prim_Prim2SF y).
    destruct (Prim2SF y) as [[]|[]| |[] ? ?]; simpl in H; try discriminate H; auto.
  - intros [-> | ->]; reflexivity.
Qed.

Lemma eqb_zero_spec (y : float) :
  (y =? 0)%float = match Prim2SF y with S754_zero _ => true | _ => false end.
Proof.
  rewrite eqb_spec, Prim2SF_zero.
  destruct (Prim2SF y) as [[]|[]| |[] ? ?]; reflexivity.
Qed.

(** A zero over a non-zero, non-nan value is a zero. *)
Lemma div_zero_l (n d : float) (sn : bool) :
  Prim2SF n = S754_zero sn -> Prim2SF d <> S754_nan -> (d =? 0)%float = false ->
  exists s, Prim2SF (n / d)%float = S754_zero s.
Proof.
  rewrite eqb_zero_spec, div_spec. unfold SF64div. intros Hn Hd Hz. rewrite Hn.
  destruct (Prim2SF d); simpl; try discriminate Hz; try congruence; eauto.
Qed.

(** [x - (+-0)] is [x], except that [-0 - -0] is [+0]. *)
Lemma sub_zero_r (x q : float) (sq : bool) :
  fin x = true -> Prim2SF q = S754_zero sq ->
  (x - q)%float = x \/ (x = (-0)%float /\ (x - q)%float = 0%float).
Proof.
  unfold fin. intros Hx Hq.
  assert (E : Prim2SF (x - q)%float = Prim2SF x \/
              (Prim2SF x = S754_zero true /\ Prim2SF (x - q)%float = S754_zero false)).
  { rewrite sub_spec. unfold SF64sub. rewrite Hq.
    destruct (Prim2SF x) as [[]|sx| |sx mx ex]; try discriminate Hx;
      destruct sq; simpl; auto. }
  destruct E as [E | [E1 E2]].
  - left. apply Prim2SF_inj. exact E.
  - right. split; apply Prim2SF_inj; [exact E1 | rewrite E2; reflexivity].
Qed.

Lemma sub_self (x : float) : fin x = true -> Prim2SF (x - x)%float = S754_zero false.
Proof.
  unfold fin. rewrite sub_spec. unfold SF64sub.
  destruct (Prim2SF x) as [[]|sx| |sx mx ex]; intros Hx; try discriminate Hx; simpl;
    try reflexivity.
  rewrite Z.sub_diag. reflexivity.
Qed.

Lemma sub_zero_neg_zero : Prim2SF (0 - (-0))%float = S754_zero false.
Proof. reflexivity. Qed.

(** ** Runs of the loop *)

Lemma length_trajectory (f df : float -> float) (n : nat) (x : float) :
  length (trajectory f df n x) = S n.
Proof.
  revert x. induction n as [|n IH]; intros x; simpl; [reflexivity|].
  rewrite IH. reflexivity.
Qed.

Lemma prepend_ok (xs ys : list float) (r : outcome) :
  prepend xs r = Ok ys -> exists zs, r = Ok zs /\ ys = xs ++ zs.
Proof. destruct r; simpl; intros H; inversion H; eauto. Qed.

Lemma prepend_not_ok (xs : list float) (r : outcome) :
  (forall ys, r <> Ok ys) -> prepend xs r = r.
Proof. destruct r as [ys| |]; intros H; [destruct (H ys eq_refl)|reflexivity|reflexivity]. Qed.

Section LoopRuns.
Variables (f df : float -> float) (tol : float).

Local Abbreviation loop := (newton_loop f df tol).
Local Abbreviation upd := (newton_update f df).
Local Abbreviation iter := (newton_iter f df).

(** A run that returns has passed at least one convergence test. *)
Lemma newton_loop_ok_tol_pos (fuel : nat) (x : float) (ys : list float) :
  loop fuel [x] = Ok ys -> (0 <? tol)%float = true.
Proof.
  revert x ys. induction fuel as [|k IH]; intros x ys H; [discriminate H|].
  rewrite newton_loop_single in H.
  destruct (df x =? 0)%float; [discriminate H|].
  destruct (abs (upd x - x) <? tol)%float eqn:Hc.
  - exact (ltb_abs_tol_pos _ _ Hc).
  - destruct (prepend_ok _ _ _ H) as [zs [Hz _]]. exact (IH _ _ Hz).
Qed.

(** Once an iterate is infinite or nan, no later test succeeds. *)
Lemma newton_loop_nonfinite (fuel : nat) (x : float) (ys : list float) :
  fin x = false -> loop fuel [x] <> Ok ys.
Proof.
  revert x ys. induction fuel as [|k IH]; intros x ys Hx H; [discriminate H|].
  rewrite newton_loop_single in H.
  destruct (df x =? 0)%float; [discriminate H|].
  assert (Hu : fin (upd x) = false) by (apply sub_nonfinite_l; exact Hx).
  rewrite (abs_nonfinite_ltb _ _ (sub_nonfinite_l _ _ Hu)) in H.
  destruct (prepend_ok _ _ _ H) as [zs [Hz _]]. exact (IH _ _ Hu Hz).
Qed.

(** A returned list is the trajectory of [j] rounds, [1 <= j <= fuel]. *)
Lemma newton_loop_ok_shape (fuel : nat) (x : float) (ys : list float) :
  loop fuel [x] = Ok ys ->
  exists j, 1 <= j <= fuel /\ ys = trajectory f df j x /\
    (forall i, i < j -> (df (iter i x) =? 0)%float = false).
Proof.
  revert x ys. induction fuel as [|k IH]; intros x ys H; [discriminate H|].
  rewrite newton_loop_single in H.
  destruct (df x =? 0)%float eqn:Hz; [discriminate H|].
  destruct (abs (upd x - x) <? tol)%float.
  - inversion H; subst. exists 1. split; [lia|split; [reflexivity|]].
    intros i Hi. assert (i = 0) by lia. subst. exact Hz.
  - destruct (prepend_ok _ _ _ H) as [zs [Hzs E]]. subst ys.
    destruct (IH _ _ Hzs) as [j [Hj [E Hd]]]. subst zs.
    exists (S j). split; [lia|split; [reflexivity|]].
    intros [|i] Hi; [exact Hz|]. simpl. apply Hd. lia.
Qed.

(** A [ZeroDivisionError] comes from an exact zero of the derivative at
    an iterate reached within the budget. *)
Lemma newton_loop_zero_derivative (fuel : nat) (x : float) :
  loop fuel [x] = ZeroDerivative ->
  exists j, j < fuel /\ (df (iter j x) =? 0)%float = true /\
    (forall i, i < j -> (df (iter i x) =? 0)%float = false).
Proof.
  revert x. induction fuel as [|k IH]; intros x H; [discriminate H|].
  rewrite newton_loop_single in H.
  destruct (df x =? 0)%float eqn:Hz.
  - exists 0. split; [lia|split; [exact Hz|]]. intros i Hi. lia.
  - destruct (abs (upd x - x) <? tol)%float; [discriminate H|].
    destruct (loop k [upd x]) as [zs| |] eqn:E; simpl in H; try discriminate H.
    destruct (IH _ E) as [j [Hj [Hd Hbefore]]].
    exists (S j). split; [lia|split; [exact Hd|]].
    intros [|i] Hi; [exact Hz|]. simpl. apply Hbefore. lia.
Qed.

(** When every round of the budget passes the guard and fails the test,
    the loop ends in [ValueError]. *)
Lemma newton_loop_exhausted (fuel : nat) (x : float) :
  (forall i, i < fuel ->
     (df (iter i x) =? 0)%float = false /\
     (abs (iter (S i) x - iter i x) <? tol)%float = false) ->
  loop fuel [x] = NonConvergence.
Proof.
  revert x. induction fuel as [|k IH]; intros x H; [reflexivity|].
  rewrite newton_loop_single.
  destruct (H 0 ltac:(lia)) as [Hz Hc]. simpl in Hz, Hc.
  rewrite Hz, Hc, IH; [reflexivity|].
  intros i Hi. exact (H (S i) ltac:(lia)).
Qed.

(** The number of rounds is bounded by the budget. *)
Lemma newton_loop_ok_length (fuel : nat) (xn ys : list float) :
  loop fuel xn = Ok ys -> length ys <= length xn + fuel.
Proof.
  revert xn. induction fuel as [|k IH]; intros xn H; [discriminate H|].
  simpl in H.
  destruct (df (py_last xn) =? 0)%float; [discriminate H|].
  destruct (_ <? tol)%float.
  - inversion H. rewrite length_app. simpl. lia.
  - apply IH in H. rewrite length_app in H. simpl in H. lia.
Qed.
End LoopRuns.

(** ** The traced loop and the relation agree with the loop *)

Section Agreement.
Variables (f df : float -> float) (tol : float).

Lemma newton_loop_traced_outcome (fuel : nat) (xn : list float) :
  fst (newton_loop_traced f df tol fuel xn) = newton_loop f df tol fuel xn.
Proof.
  revert xn. induction fuel as [|k IH]; intros xn; [reflexivity|].
  simpl. destruct (df (py_last xn) =? 0)%float; [reflexivity|].
  destruct (_ <? tol)%float; [reflexivity|].
  rewrite <- IH. destruct (newton_loop_traced f df tol k _). reflexivity.
Qed.

Lemma newton_run_loop (fuel : nat) (xn : list float) :
  newton_run f df tol fuel xn (newton_loop f df tol fuel xn).
Proof.
  revert xn. induction fuel as [|k IH]; intros xn; [constructor|].
  simpl. destruct (df (py_last xn) =? 0)%float eqn:Hz; [constructor; exact Hz|].
  destruct (_ <? tol)%float eqn:Hc.
  - eapply run_converged; eauto.
  - eapply run_continue; eauto.
Qed.

Lemma newton_run_eq (fuel : nat) (xn : list float) (r : outcome) :
  newton_run f df tol fuel xn r -> r = newton_loop f df tol fuel xn.
Proof.
  induction 1 as [xn|k xn Hz|k xn x_new Hz Hx Hc|k xn x_new r Hz Hx Hc _ IH];
    simpl; subst; rewrite ?Hz, ?Hc; auto.
Qed.
End Agreement.

Section Backend.
Variable Expr : Type.
Variable free_symbols : Expr -> list string.
Variable diff : Expr -> string -> Expr.
Variable lambdify : string -> Expr -> float -> float.

Local Abbreviation my_newton := (my_newton Expr free_symbols diff lambdify).
Local Abbreviation nf := (newton_f Expr free_symbols lambdify).
Local Abbreviation ndf := (newton_df Expr free_symbols diff lambdify).

Lemma my_newton_loop (e : Expr) (x0 tol : float) (max_iter : Z) :
  my_newton e x0 tol max_iter = newton_loop (nf e) (ndf e) tol (Z.to_nat max_iter) [x0].
Proof. reflexivity. Qed.
End Backend.

(** ** Trajectories, traces and the zero-derivative exit *)

Section Trajectory.
Variables (f df : float -> float) (tol : float).

Local Abbreviation upd := (newton_update f df).
Local Abbreviation iter := (newton_iter f df).
Local Abbreviation traj := (trajectory f df).

Lemma newton_iter_succ (i : nat) (x : float) : iter (S i) x = upd (iter i x).
Proof.
  revert x. induction i as [|i IH]; intros x; [reflexivity|].
  change (iter (S (S i)) x) with (iter (S i) (upd x)). rewrite IH. reflexivity.
Qed.

Lemma nth_trajectory (j i : nat) (x d : float) :
  i <= j -> nth i (traj j x) d = iter i x.
Proof.
  revert i x. induction j as [|j IH]; intros [|i] x Hi; simpl; try reflexivity; try lia.
  apply IH. lia.
Qed.

Lemma trajectory_snoc (n : nat) (x : float) :
  traj (S n) x = traj n x ++ [iter (S n) x].
Proof.
  revert x. induction n as [|n IH]; intros x; [reflexivity|].
  change (traj (S (S n)) x) with (x :: traj (S n) (upd x)).
  rewrite IH. reflexivity.
Qed.

Lemma newton_loop_zero_iff (fuel : nat) (x : float) :
  newton_loop f df tol fuel [x] = ZeroDerivative <->
  exists j, j < fuel /\ (df (iter j x) =? 0)%float = true /\
    (forall i, i < j -> (df (iter i x) =? 0)%float = false /\
       (abs (iter (S i) x - iter i x) <? tol)%float = false).
Proof.
  revert x. induction fuel as [|k IH]; intros x.
  - split; [discriminate|]. intros [j [Hj _]]. lia.
  - rewrite newton_loop_single. split.
    + destruct (df x =? 0)%float eqn:Hz.
      * intros _. exists 0. split; [lia|split; [exact Hz|]]. intros i Hi. lia.
      * destruct (abs (upd x - x) <? tol)%float eqn:Hc; [discriminate|].
        destruct (newton_loop f df tol k [upd x]) as [zs| |] eqn:E;
          simpl; intros H; try discriminate H.
        destruct (proj1 (IH _) E) as [j [Hj [Hd Hb]]].
        exists (S j). split; [lia|split; [exact Hd|]].
        intros [|i] Hi; [split; assumption|]. apply Hb. lia.
    + intros [j [Hj [Hd Hb]]].
      destruct j as [|j]; [simpl in Hd; rewrite Hd; reflexivity|].
      destruct (Hb 0 ltac:(lia)) as [Hz Hc]. simpl in Hz, Hc.
      rewrite Hz, Hc.
      rewrite (proj2 (IH (upd x))); [reflexivity|].
      exists j. split; [lia|split; [exact Hd|]].
      intros i Hi. exact (Hb (S i) ltac:(lia)).
Qed.

Lemma traced_appends_le (fuel : nat) (xn : list float) :
  appends (snd (newton_loop_traced f df tol fuel xn)) <= fuel.
Proof.
  unfold appends. revert xn. induction fuel as [|k IH]; intros xn; simpl; [lia|].
  destruct (df (py_last xn) =? 0)%float; simpl; [lia|].
  destruct (_ <? tol)%float; simpl; [lia|].
  specialize (IH (xn ++ [(py_last xn - f (py_last xn) / df (py_last xn))%float])).
  destruct (newton_loop_traced f df tol k _) as [r evs']. simpl in *. lia.
Qed.

Lemma traced_ok_appends (fuel : nat) (xn ys : list float) (evs : list event) :
  newton_loop_traced f df tol fuel xn = (Ok ys, evs) ->
  length ys = length xn + appends evs.
Proof.
  revert xn evs. induction fuel as [|k IH]; intros xn evs H; simpl in H; [discriminate H|].
  destruct (df (py_last xn) =? 0)%float; [discriminate H|].
  destruct (_ <? tol)%float.
  - inversion H; subst. rewrite length_app. unfold appends. simpl. lia.
  - destruct (newton_loop_traced f df tol k _) as [r evs'] eqn:E. inversion H; subst.
    apply IH in E. rewrite length_app in E. unfold appends in *. simpl in *. lia.
Qed.
End Trajectory.

(** ** Starting at an exact root; stopping at the first convergent round *)

Lemma eqb_refl_fin (x : float) : fin x = true -> (x =? x)%float = true.
Proof.
  unfold fin. rewrite eqb_spec.
  destruct (Prim2SF x) as [sx|sx| |sx mx ex]; intros H; try discriminate H; simpl;
    [reflexivity|].
  unfold SFeqb. simpl. rewrite Z.compare_refl, Pos.compare_cont_refl.
  destruct sx; reflexivity.
Qed.

Section RootsAndStops.
Variables (f df : float -> float) (tol : float).

Local Abbreviation loop := (newton_loop f df tol).
Local Abbreviation upd := (newton_update f df).

Lemma newton_loop_root_start (fuel : nat) (x : float) (ys : list float) :
  (f x =? 0)%float = true -> (df x =? 0)%float = false ->
  loop fuel [x] = Ok ys ->
  fin x = true /\ exists x1, ys = [x; x1] /\ (x1 = x \/ (x = (-0)%float /\ x1 = 0%float)).
Proof.
  intros Hf Hdz H.
  destruct (fin x) eqn:Hx; [|destruct (newton_loop_nonfinite _ _ _ _ _ _ Hx H)].
  split; [reflexivity|].
  destruct fuel as [|k]; [discriminate H|].
  rewrite newton_loop_single, Hdz in H.
  rewrite eqb_zero_spec in Hf.
  destruct (Prim2SF (f x)) as [sf| | |] eqn:Ef; try discriminate Hf.
  destruct (Prim2SF (df x)) eqn:Ed.
  (* a non-nan, non-zero derivative gives a zero quotient *)
  1,2,4: assert (Hq : exists sq, Prim2SF (f x / df x)%float = S754_zero sq)
           by (apply (div_zero_l _ _ sf Ef); [rewrite Ed; discriminate|exact Hdz]);
    destruct Hq as [sq Hq];
    assert (Hx1 : upd x = x \/ (x = (-0)%float /\ upd x = 0%float))
      by (apply (sub_zero_r _ _ sq Hx Hq));
    assert (Hd : Prim2SF (upd x - x)%float = S754_zero false)
      by (destruct Hx1 as [-> | [-> ->]]; [apply sub_self, Hx|apply sub_zero_neg_zero]);
    rewrite (ltb_abs_zero _ _ Hd) in H;
    destruct (0 <? tol)%float eqn:Ht;
    [ inversion H; subst; eauto
    | destruct (prepend_ok _ _ _ H) as [zs [Hzs _]];
      rewrite (newton_loop_ok_tol_pos _ _ _ _ _ _ Hzs) in Ht; discriminate Ht ].
  (* a nan derivative makes the next iterate nan *)
  assert (Hq : fin (f x / df x)%float = false)
    by (unfold fin; rewrite div_spec, Ef, Ed; reflexivity).
  assert (Hu : fin (upd x) = false) by (apply sub_nonfinite_r; exact Hq).
  rewrite (abs_nonfinite_ltb _ _ (sub_nonfinite_l _ _ Hu)) in H.
  destruct (prepend_ok _ _ _ H) as [zs [Hzs _]].
  destruct (newton_loop_nonfinite _ _ _ _ _ _ Hu Hzs).
Qed.

Lemma newton_loop_first_stop (fuel : nat) (x : float) (ys : list float) :
  loop fuel [x] = Ok ys ->
  (forall i, S (S i) < length ys ->
     (tol <=? abs (nth (S i) ys nan - nth i ys nan))%float = true) /\
  (abs (nth (length ys - 1) ys nan - nth (length ys - 2) ys nan) <? tol)%float = true.
Proof.
  revert x ys. induction fuel as [|k IH]; intros x ys H; [discriminate H|].
  pose proof H as H0.
  rewrite newton_loop_single in H.
  destruct (df x =? 0)%float; [discriminate H|].
  destruct (abs (upd x - x) <? tol)%float eqn:Hc.
  - inversion H; subst. split; [intros i Hi; simpl in Hi; lia|exact Hc].
  - destruct (prepend_ok _ _ _ H) as [zs [Hzs ->]].
    destruct (IH _ _ Hzs) as [IHa IHb].
    destruct (newton_loop_ok_shape _ _ _ _ _ _ Hzs) as [j [Hj [Ez _]]].
    assert (Hlen : length zs = S j) by (subst zs; apply length_trajectory).
    destruct zs as [|z0 [|z1 rest]]; simpl in Hlen; try lia.
    assert (Ez0 : z0 = upd x) by (destruct j; inversion Ez; reflexivity).
    split.
    + intros [|i] Hi.
      * simpl. rewrite Ez0.
        destruct (fin x) eqn:Hx; [|destruct (newton_loop_nonfinite _ _ _ _ _ _ Hx H0)].
        destruct (fin (upd x)) eqn:Hu; [|destruct (newton_loop_nonfinite _ _ _ _ _ _ Hu Hzs)].
        apply ltb_false_leb; [|exact (ltb_pos_not_nan _ (newton_loop_ok_tol_pos _ _ _ _ _ _ Hzs))|exact Hc].
        apply abs_not_nan, sub_finite_not_nan; assumption.
      * apply (IHa i). simpl in Hi |- *. lia.
    + simpl in IHb |- *. rewrite Nat.sub_0_r in IHb. exact IHb.
Qed.
End RootsAndStops.

(** ** The claims *)

Section Claims.
Variable Expr : Type.
Variable free_symbols : Expr -> list string.
Variable diff : Expr -> string -> Expr.
Variable lambdify : string -> Expr -> float -> float.

Local Abbreviation my_newton := (my_newton Expr free_symbols diff lambdify).
Local Abbreviation my_newton_traced := (my_newton_traced Expr free_symbols diff lambdify).
Local Abbreviation nf := (newton_f Expr free_symbols lambdify).
Local Abbreviation ndf := (newton_df Expr free_symbols diff lambdify).

(** C1: in any round (some budget left, state [xn] non-empty), when the
    guard passes and the new value [x_new] is closer than [tol] to the
    previous last element [xn[-1]], the call returns [xn] with [x_new]
    appended: the whole sequence from [x0] through [x_new]. *)
Theorem C1_convergence_returns (f df : float -> float) (tol : float) (k : nat)
    (xn : list float) :
  xn <> [] ->
  (df (py_last xn) =? 0)%float = false ->
  (abs ((py_last xn - f (py_last xn) / df (py_last xn)) - py_last xn) <? tol)%float = true ->
  newton_loop f df tol (S k) xn =
    Ok (xn ++ [(py_last xn - f (py_last xn) / df (py_last xn))%float]).
Proof.
  intros Hne Hz Hc.
  destruct (nonempty_snoc xn Hne) as [xs [x ->]].
  rewrite py_last_snoc in *. rewrite newton_loop_snoc.
  unfold newton_update. rewrite Hz, Hc, <- app_assoc. reflexivity.
Qed.

(** C2: a call raises [ZeroDivisionError] exactly when, at some round
    within the budget, the derivative at the current iterate compares
    equal to [0] (every earlier round having passed the guard and failed
    the test); the outcome carries no sequence.  The comparison [== 0]
    holds on [+0] and [-0] only, so no non-zero value (such as [1e-300])
    triggers it. *)
Theorem C2_zero_derivative :
  (forall (e : Expr) (x0 tol : float) (max_iter : Z),
     my_newton e x0 tol max_iter = ZeroDerivative <->
     exists j, j < Z.to_nat max_iter /\
       (ndf e (newton_iter (nf e) (ndf e) j x0) =? 0)%float = true /\
       (forall i, i < j ->
          (ndf e (newton_iter (nf e) (ndf e) i x0) =? 0)%float = false /\
          (abs (newton_iter (nf e) (ndf e) (S i) x0 - newton_iter (nf e) (ndf e) i x0)
             <? tol)%float = false)) /\
  (forall y : float, (y =? 0)%float = true <-> y = 0%float \/ y = (-0)%float).
Proof.
  split.
  - intros e x0 tol max_iter. rewrite my_newton_loop. apply newton_loop_zero_iff.
  - exact eqb_zero_iff.
Qed.

(** C3: when all [max_iter] rounds pass the guard and fail the
    convergence test, the call raises [ValueError] (no sequence is
    returned); in every call at most [max_iter] values are appended, and a
    returned list has at most [max_iter + 1] elements. *)
Theorem C3_nonconvergence (e : Expr) (x0 tol : float) (max_iter : Z) :
  ((forall i, i < Z.to_nat max_iter ->
      (ndf e (newton_iter (nf e) (ndf e) i x0) =? 0)%float = false /\
      (abs (newton_iter (nf e) (ndf e) (S i) x0 - newton_iter (nf e) (ndf e) i x0)
         <? tol)%float = false) ->
   my_newton e x0 tol max_iter = NonConvergence) /\
  appends (snd (my_newton_traced e x0 tol max_iter)) <= Z.to_nat max_iter /\
  (forall ys, my_newton e x0 tol max_iter = Ok ys -> length ys <= 1 + Z.to_nat max_iter).
Proof.
  split; [|split].
  - intros H. rewrite my_newton_loop. apply newton_loop_exhausted. exact H.
  - apply traced_appends_le.
  - intros ys H. rewrite my_newton_loop in H. apply newton_loop_ok_length in H.
    simpl in H. lia.
Qed.

(** C4: a round that passes the guard appends
    [x_new = xn[-1] - f(xn[-1]) / df(xn[-1])], with the primitive
    division, and then tests [|x_new - xn[-1]| < tol]; so every element of
    a returned list after the first is the Newton update of the one
    before it, at a point where the derivative is non-zero. *)
Theorem C4_newton_update :
  (forall (f df : float -> float) (tol : float) (k : nat) (xn : list float),
     xn <> [] -> (df (py_last xn) =? 0)%float = false ->
     newton_loop f df tol (S k) xn =
     let x_new := (py_last xn - f (py_last xn) / df (py_last xn))%float in
     if (abs (x_new - py_last xn) <? tol)%float then Ok (xn ++ [x_new])
     else newton_loop f df tol k (xn ++ [x_new])) /\
  (forall (e : Expr) (x0 tol : float) (max_iter : Z) (ys : list float),
     my_newton e x0 tol max_iter = Ok ys ->
     forall i, S i < length ys ->
       (ndf e (nth i ys nan) =? 0)%float = false /\
       nth (S i) ys nan = (nth i ys nan - nf e (nth i ys nan) / ndf e (nth i ys nan))%float).
Proof.
  split.
  - intros f df tol k xn Hne Hz.
    destruct (nonempty_snoc xn Hne) as [xs [x ->]].
    rewrite py_last_snoc in *. rewrite newton_loop_snoc. unfold newton_update.
    rewrite Hz, <- app_assoc. reflexivity.
  - intros e x0 tol max_iter ys H i Hi. rewrite my_newton_loop in H.
    destruct (newton_loop_ok_shape _ _ _ _ _ _ H) as [j [Hj [-> Hd]]].
    rewrite length_trajectory in Hi.
    rewrite !nth_trajectory by lia. rewrite newton_iter_succ.
    split; [apply Hd; lia|reflexivity].
Qed.

(** C5: a returned list starts with [x0] itself and is the trajectory of
    the [j] completed rounds ([1 <= j <= max_iter]): [j + 1] elements, each
    round extending the previous state by exactly one appended value, and
    the trace of the call shows exactly [j] appends. *)
Theorem C5_sequence_shape (e : Expr) (x0 tol : float) (max_iter : Z) (ys : list float) :
  my_newton e x0 tol max_iter = Ok ys ->
  nth 0 ys nan = x0 /\
  exists j, 1 <= j <= Z.to_nat max_iter /\ length ys = S j /\
    ys = trajectory (nf e) (ndf e) j x0 /\
    appends (snd (my_newton_traced e x0 tol max_iter)) = j /\
    (forall i, i < j ->
       trajectory (nf e) (ndf e) (S i) x0 =
       trajectory (nf e) (ndf e) i x0 ++ [newton_iter (nf e) (ndf e) (S i) x0]).
Proof.
  intros H. pose proof H as H'. rewrite my_newton_loop in H.
  destruct (newton_loop_ok_shape _ _ _ _ _ _ H) as [j [Hj [Ey _]]].
  split; [subst ys; destruct j; reflexivity|].
  exists j. split; [exact Hj|]. split; [subst ys; apply length_trajectory|].
  split; [exact Ey|]. split.
  - unfold my_newton_traced.
    pose proof (newton_loop_traced_outcome (nf e) (ndf e) tol (Z.to_nat max_iter) [x0]) as Ho.
    rewrite <- my_newton_loop, H' in Ho.
    destruct (newton_loop_traced _ _ _ _ _) as [r evs] eqn:Et. simpl in Ho |- *. subst r.
    apply traced_ok_appends in Et. subst ys. rewrite length_trajectory in Et. simpl in Et. lia.
  - intros i _. apply trajectory_snoc.
Qed.
(** C6: the variable is chosen once, at entry: the first element of the
    enumeration of the free symbols when there is one, the name ["x"]
    otherwise; the function and the derivative of the whole run are
    evaluated at that variable. *)
Theorem C6_variable_selection (e : Expr) (x0 tol : float) (max_iter : Z) :
  (forall v vs, free_symbols e = v :: vs ->
     my_newton e x0 tol max_iter =
     newton_loop (lambdify v e) (lambdify v (diff e v)) tol (Z.to_nat max_iter) [x0]) /\
  (free_symbols e = [] ->
     my_newton e x0 tol max_iter =
     newton_loop (lambdify "x"%string e) (lambdify "x"%string (diff e "x"%string)) tol
       (Z.to_nat max_iter) [x0]).
Proof.
  rewrite my_newton_loop. unfold newton_f, newton_df, select_var. split.
  - intros v vs H. rewrite H. reflexivity.
  - intros H. rewrite H. reflexivity.
Qed.

(** C7: the outcome of a call is determined by its inputs: two runs of
    the loop's big-step semantics on the same expression, [x0], [tol] and
    [max_iter] end in the same outcome (the same list, or the same
    exception), which is the one [my_newton] computes. *)
Theorem C7_deterministic (e : Expr) (x0 tol : float) (max_iter : Z) (r1 r2 : outcome) :
  my_newton_run Expr free_symbols diff lambdify e x0 tol max_iter r1 ->
  my_newton_run Expr free_symbols diff lambdify e x0 tol max_iter r2 ->
  r1 = r2 /\ r1 = my_newton e x0 tol max_iter.
Proof.
  unfold my_newton_run. intros H1 H2.
  apply newton_run_eq in H1, H2. rewrite my_newton_loop. split; congruence.
Qed.

(** C8: a returned list has at least two elements; when [x0] is an exact
    root with a non-zero derivative, a returned list is [[x0, x1]] with
    [x1 == x0]: [x1] is [x0] itself, except that [x0 = -0.0] may give
    [x1 = +0.0]. *)
Theorem C8_at_least_two (e : Expr) (x0 tol : float) (max_iter : Z) (ys : list float) :
  my_newton e x0 tol max_iter = Ok ys ->
  2 <= length ys /\
  ((nf e x0 =? 0)%float = true -> (ndf e x0 =? 0)%float = false ->
   exists x1, ys = [x0; x1] /\ (x1 =? x0)%float = true /\
     (x1 = x0 \/ (x0 = (-0)%float /\ x1 = 0%float))).
Proof.
  intros H. rewrite my_newton_loop in H. split.
  - destruct (newton_loop_ok_shape _ _ _ _ _ _ H) as [j [Hj [-> _]]].
    rewrite length_trajectory. lia.
  - intros Hf Hdz.
    destruct (newton_loop_root_start _ _ _ _ _ _ Hf Hdz H) as [Hx [x1 [-> Hx1]]].
    exists x1. split; [reflexivity|split; [|exact Hx1]].
    destruct Hx1 as [-> | [-> ->]]; [apply eqb_refl_fin, Hx|reflexivity].
Qed.

(** C9: a returned list [x_0 .. x_n] stopped at the first convergent
    round: every pair of consecutive elements but the last has
    [|x_(i+1) - x_i| >= tol], and the last pair has [|x_n - x_(n-1)| < tol]. *)
Theorem C9_first_convergent_stop (e : Expr) (x0 tol : float) (max_iter : Z) (ys : list float) :
  my_newton e x0 tol max_iter = Ok ys ->
  (forall i, S (S i) < length ys ->
     (tol <=? abs (nth (S i) ys nan - nth i ys nan))%float = true) /\
  (abs (nth (length ys - 1) ys nan - nth (length ys - 2) ys nan) <? tol)%float = true.
Proof.
  intros H. rewrite my_newton_loop in H. exact (newton_loop_first_stop _ _ _ _ _ _ H).
Qed.

(** C10: with [max_iter <= 0] the loop body never runs: no evaluation of
    the function or the derivative, no append, and [ValueError]. *)
Theorem C10_nonpositive_budget (e : Expr) (x0 tol : float) (max_iter : Z) :
  (max_iter <= 0)%Z ->
  my_newton_traced e x0 tol max_iter = (NonConvergence, []) /\
  my_newton e x0 tol max_iter = NonConvergence.
Proof.
  intros H.
  assert (E : Z.to_nat max_iter = 0) by (destruct max_iter; [reflexivity|lia|reflexivity]).
  change (my_newton_traced e x0 tol max_iter)
    with (newton_loop_traced (nf e) (ndf e) tol (Z.to_nat max_iter) [x0]).
  rewrite my_newton_loop, E. split; reflexivity.
Qed.
End Claims.

(** ** The claims on concrete inputs *)

(** Starting at [x0 = -0.0] on [f(x) = 0 - x]: the quotient is [-0.0] and
    the second element is [+0.0]. *)
Example root_start_neg_zero :
  Sym.run (Sym.Sub (Sym.Num 0%float) Sym.X) (-0)%float default_tol 20 = Ok [(-0)%float; 0%float].
Proof. vm_compute. reflexivity. Qed.

Lemma C1_witness :
  newton_loop (Sym.nf Sym.quadratic) (Sym.ndf Sym.quadratic) default_tol 1 [3%float; 2%float] =
  Ok [3%float; 2%float; 2%float].
Proof.
  refine (eq_trans (C1_convergence_returns (Sym.nf Sym.quadratic) (Sym.ndf Sym.quadratic)
                      default_tol 0 [3%float; 2%float] _ _ _) _).
  - discriminate.
  - vm_compute. reflexivity.
  - vm_compute. reflexivity.
  - vm_compute. reflexivity.
Defined.

Lemma C2_witness : Sym.run (Sym.Num 2%float) 1%float default_tol 20 = ZeroDerivative.
Proof.
  apply (proj2 (proj1 (C2_zero_derivative Sym.expr Sym.free_symbols Sym.diff Sym.lambdify)
                  (Sym.Num 2%float) 1%float default_tol 20%Z)).
  exists 0. split; [vm_compute; lia|].
  split; [vm_compute; reflexivity|intros i Hi; lia].
Defined.

Lemma C3_witness : Sym.run Sym.cube 1000%float default_tol 20 = NonConvergence.
Proof.
  apply (proj1 (C3_nonconvergence Sym.expr Sym.free_symbols Sym.diff Sym.lambdify
                  Sym.cube 1000%float default_tol 20%Z)).
  intros i Hi. simpl in Hi.
  do 20 (destruct i as [|i]; [vm_compute; split; reflexivity|]). lia.
Defined.

Lemma C4_witness :
  exists ys, Sym.run Sym.quadratic 3%float default_tol 20 = Ok ys /\
    (Sym.ndf Sym.quadratic (nth 0 ys nan) =? 0)%float = false /\
    nth 1 ys nan = (nth 0 ys nan - Sym.nf Sym.quadratic (nth 0 ys nan)
                                   / Sym.ndf Sym.quadratic (nth 0 ys nan))%float.
Proof.
  eexists. split; [vm_compute; reflexivity|].
  apply (proj2 (C4_newton_update Sym.expr Sym.free_symbols Sym.diff Sym.lambdify)
           Sym.quadratic 3%float default_tol 20%Z); [vm_compute; reflexivity|].
  vm_compute. lia.
Defined.

Lemma C5_witness :
  exists ys, Sym.run Sym.quadratic 3%float default_tol 20 = Ok ys /\ nth 0 ys nan = 3%float.
Proof.
  eexists. split; [vm_compute; reflexivity|].
  apply (C5_sequence_shape Sym.expr Sym.free_symbols Sym.diff Sym.lambdify
           Sym.quadratic 3%float default_tol 20%Z). vm_compute. reflexivity.
Defined.

(** [y + x] enumerates [y] first, so [y] is the variable. *)
Lemma C6_witness :
  Sym.run (Sym.Add (Sym.Var "y") Sym.X) 1%float default_tol 20 =
  newton_loop (Sym.lambdify "y" (Sym.Add (Sym.Var "y") Sym.X))
    (Sym.lambdify "y" (Sym.diff (Sym.Add (Sym.Var "y") Sym.X) "y")) default_tol 20 [1%float].
Proof.
  apply (proj1 (C6_variable_selection Sym.expr Sym.free_symbols Sym.diff Sym.lambdify
                  (Sym.Add (Sym.Var "y") Sym.X) 1%float default_tol 20%Z) "y"%string ["x"%string]).
  vm_compute. reflexivity.
Defined.

Lemma C7_witness :
  exists r, Sym.run_rel Sym.quadratic 3%float default_tol 20 r /\
    r = Sym.run Sym.quadratic 3%float default_tol 20.
Proof.
  exists (Sym.run Sym.quadratic 3%float default_tol 20%Z). split; [apply newton_run_loop|].
  apply (C7_deterministic Sym.expr Sym.free_symbols Sym.diff Sym.lambdify
           Sym.quadratic 3%float default_tol 20%Z); apply newton_run_loop.
Defined.

Lemma C8_witness :
  Sym.run Sym.quadratic 2%float default_tol 20 = Ok [2%float; 2%float] /\
  exists x1, [2%float; 2%float] = [2%float; x1] /\ (x1 =? 2)%float = true /\
    (x1 = 2%float \/ (2%float = (-0)%float /\ x1 = 0%float)).
Proof.
  assert (H : Sym.run Sym.quadratic 2%float default_tol 20 = Ok [2%float; 2%float])
    by (vm_compute; reflexivity).
  split; [exact H|].
  apply (proj2 (C8_at_least_two Sym.expr Sym.free_symbols Sym.diff Sym.lambdify
                  Sym.quadratic 2%float default_tol 20 _ H));
    vm_compute; reflexivity.
Defined.

Lemma C9_witness :
  exists ys, Sym.run Sym.quadratic 3%float default_tol 20 = Ok ys /\
    (abs (nth (length ys - 1) ys nan - nth (length ys - 2) ys nan) <? default_tol)%float = true.
Proof.
  eexists. split; [vm_compute; reflexivity|].
  apply (C9_first_convergent_stop Sym.expr Sym.free_symbols Sym.diff Sym.lambdify
           Sym.quadratic 3%float default_tol 20%Z). vm_compute. reflexivity.
Defined.

Lemma C10_witness :
  Sym.traced Sym.quadratic 3%float default_tol (-3) = (NonConvergence, []) /\
  Sym.run Sym.quadratic 3%float default_tol (-3) = NonConvergence.
Proof.
  apply (C10_nonpositive_budget Sym.expr Sym.free_symbols Sym.diff Sym.lambdify
           Sym.quadratic 3%float default_tol (-3)%Z). lia.
Defined.


(** ** Further properties of the loop *)

Section Budget.
Variables (f df : float -> float) (tol : float).

Local Abbreviation loop := (newton_loop f df tol).
Local Abbreviation upd := (newton_update f df).

(** A run that ends before the budget runs out ends the same way with any
    larger budget. *)
Lemma newton_loop_budget_up (fuel fuel' : nat) (xn : list float) (r : outcome) :
  loop fuel xn = r -> r <> NonConvergence -> fuel <= fuel' -> loop fuel' xn = r.
Proof.
  revert fuel' xn. induction fuel as [|k IH]; intros fuel' xn H Hr Hle;
    [simpl in H; subst; congruence|].
  destruct fuel' as [|k']; [lia|]. simpl in H |- *.
  destruct (df (py_last xn) =? 0)%float; [exact H|].
  destruct (_ <? tol)%float; [exact H|].
  apply IH; [exact H|exact Hr|lia].
Qed.

(** Running out of budget still happens with a smaller budget. *)
Lemma newton_loop_budget_down (fuel fuel' : nat) (xn : list float) :
  loop fuel xn = NonConvergence -> fuel' <= fuel -> loop fuel' xn = NonConvergence.
Proof.
  revert fuel xn. induction fuel' as [|k' IH]; intros fuel xn H Hle; [reflexivity|].
  destruct fuel as [|k]; [lia|]. simpl in H |- *.
  destruct (df (py_last xn) =? 0)%float; [discriminate H|].
  destruct (_ <? tol)%float; [discriminate H|].
  apply (IH k); [exact H|lia].
Qed.

(** A returned list needs exactly as many rounds as it has new elements. *)
Lemma newton_loop_ok_exact (fuel : nat) (xn ys : list float) :
  loop fuel xn = Ok ys ->
  loop (length ys - length xn) xn = Ok ys /\
  (forall fuel', fuel' < length ys - length xn -> loop fuel' xn = NonConvergence).
Proof.
  revert xn. induction fuel as [|k IH]; intros xn H; [discriminate H|].
  pose proof (newton_loop_ok_length f df tol _ _ _ H) as Hlen.
  simpl in H.
  destruct (df (py_last xn) =? 0)%float eqn:Hz; [discriminate H|].
  destruct (_ <? tol)%float eqn:Hc.
  - inversion H; subst. rewrite length_app. simpl.
    replace (length xn + 1 - length xn) with 1 by lia.
    split; [simpl; rewrite Hz, Hc; reflexivity|].
    intros [|fuel'] Hf; [reflexivity|lia].
  - destruct (IH _ H) as [H1 H2]. rewrite length_app in H1, H2. simpl in H1, H2.
    pose proof (newton_loop_ok_length f df tol _ _ _ H) as Hlen'.
    rewrite length_app in Hlen'. simpl in Hlen'.
    assert (E : length ys - length xn = S (length ys - (length xn + 1))).
    { destruct (Nat.eq_dec (length ys - (length xn + 1)) 0) as [E0|E0].
      - rewrite E0 in H1. discriminate H1.
      - lia. }
    split.
    + rewrite E. simpl. rewrite Hz, Hc. exact H1.
    + intros [|fuel'] Hf; [reflexivity|]. simpl. rewrite Hz, Hc.
      apply H2. lia.
Qed.

(** Every element of a returned list is finite. *)
Lemma newton_loop_ok_finite (fuel : nat) (x : float) (ys : list float) :
  loop fuel [x] = Ok ys -> forall y, In y ys -> fin y = true.
Proof.
  revert x ys. induction fuel as [|k IH]; intros x ys H; [discriminate H|].
  pose proof H as H0. rewrite newton_loop_single in H.
  destruct (df x =? 0)%float; [discriminate H|].
  destruct (fin x) eqn:Hx; [|destruct (newton_loop_nonfinite _ _ _ _ _ _ Hx H0)].
  destruct (abs (upd x - x) <? tol)%float eqn:Hc.
  - inversion H; subst. intros y [<-|[<-|[]]]; [exact Hx|].
    destruct (fin (upd x)) eqn:Hu; [reflexivity|].
    rewrite (abs_nonfinite_ltb _ _ (sub_nonfinite_l _ _ Hu)) in Hc. discriminate Hc.
  - destruct (prepend_ok _ _ _ H) as [zs [Hzs ->]].
    intros y [<-|Hy]; [exact Hx|exact (IH _ _ Hzs y Hy)].
Qed.

(** Restarting from the second element of a returned list of three or
    more elements, with one round less, returns the rest of the list. *)
Lemma newton_loop_restart (k : nat) (x y : float) (ys : list float) :
  loop (S k) [x] = Ok (x :: y :: ys) -> ys <> [] -> loop k [y] = Ok (y :: ys).
Proof.
  intros H Hne. rewrite newton_loop_single in H.
  destruct (df x =? 0)%float; [discriminate H|].
  destruct (abs (upd x - x) <? tol)%float.
  - inversion H. subst. congruence.
  - destruct (prepend_ok _ _ _ H) as [zs [Hzs E]]. inversion E; subst.
    destruct (newton_loop_ok_shape _ _ _ _ _ _ Hzs) as [j [_ [Ej _]]].
    assert (Ey : y = upd x) by (destruct j; inversion Ej; reflexivity).
    rewrite Ey in Hzs |- *. exact Hzs.
Qed.
End Budget.

Section Traces.
Variables (f df : float -> float) (tol : float).

Local Abbreviation traced := (newton_loop_traced f df tol).

(** [ValueError] comes after exactly [fuel] completed rounds. *)
Lemma traced_nonconvergence_appends (fuel : nat) (xn : list float) :
  fst (traced fuel xn) = NonConvergence -> appends (snd (traced fuel xn)) = fuel.
Proof.
  unfold appends. revert xn. induction fuel as [|k IH]; intros xn H; [reflexivity|].
  simpl in H |- *.
  destruct (df (py_last xn) =? 0)%float; [discriminate H|].
  destruct (_ <? tol)%float; [discriminate H|].
  specialize (IH (xn ++ [(py_last xn - f (py_last xn) / df (py_last xn))%float])).
  destruct (traced k _) as [r evs']. simpl in *. rewrite (IH H). reflexivity.
Qed.

(** [ZeroDivisionError] is raised right after evaluating the derivative at
    a point where it is zero, with [f] not evaluated there, after fewer than
    [fuel] completed rounds. *)
Lemma traced_zero_derivative (fuel : nat) (xn : list float) :
  fst (traced fuel xn) = ZeroDerivative ->
  exists evs x, snd (traced fuel xn) = evs ++ [EvalDf x] /\
    (df x =? 0)%float = true /\ appends evs < fuel.
Proof.
  revert xn. induction fuel as [|k IH]; intros xn H; [discriminate H|].
  simpl in H |- *.
  destruct (df (py_last xn) =? 0)%float eqn:Hz.
  - exists [], (py_last xn). simpl. unfold appends. simpl. split; [reflexivity|split; [exact Hz|lia]].
  - destruct (_ <? tol)%float; [discriminate H|].
    specialize (IH (xn ++ [(py_last xn - f (py_last xn) / df (py_last xn))%float])).
    destruct (traced k _) as [r evs'] eqn:E. simpl in *.
    destruct (IH H) as [evs [x [Hevs [Hx Ha]]]].
    eexists (_ :: _ :: _ :: _ :: evs), x. rewrite Hevs. split; [reflexivity|].
    split; [exact Hx|]. unfold appends in *. simpl. lia.
Qed.

(** In a successful call, [f] is evaluated once at every element of the
    returned list but the last, in order, and nowhere else. *)
Lemma traced_ok_f_points (fuel : nat) (xn ys : list float) (evs : list event) :
  xn <> [] -> traced fuel xn = (Ok ys, evs) ->
  exists zs, ys = xn ++ zs /\ f_points evs = removelast (py_last xn :: zs).
Proof.
  revert xn evs. induction fuel as [|k IH]; intros xn evs Hne H; [discriminate H|].
  simpl in H.
  destruct (df (py_last xn) =? 0)%float; [discriminate H|].
  destruct (_ <? tol)%float.
  - inversion H; subst. eexists. split; [reflexivity|reflexivity].
  - destruct (traced k _) as [r evs'] eqn:E. inversion H; subst.
    assert (Hne' : xn ++ [(py_last xn - f (py_last xn) / df (py_last xn))%float] <> [])
      by (destruct xn; discriminate).
    destruct (IH _ _ Hne' E) as [zs [Ez Hp]].
    rewrite py_last_snoc in Hp.
    exists ((py_last xn - f (py_last xn) / df (py_last xn))%float :: zs).
    split; [rewrite Ez, <- app_assoc; reflexivity|].
    unfold f_points in *. simpl. rewrite Hp. reflexivity.
Qed.
End Traces.

(** ** Transitivity of the float order *)

Lemma SFcompare_key (a b : spec_float) :
  a <> S754_nan -> b <> S754_nan -> SFcompare a b = Some (lex_compare (sf_key a) (sf_key b)).
Proof.
  intros Ha Hb.
  destruct a as [sa|[]| |[] ma ea], b as [sb|[]| |[] mb eb]; try congruence;
    simpl; try reflexivity.
  - rewrite Z.compare_opp, (Z.compare_antisym eb ea). destruct (eb ?= ea)%Z; reflexivity.
Qed.

Lemma lex_compare_lt (a b : Z * Z * Z) :
  lex_compare a b = Lt <->
  (fst (fst a) < fst (fst b) \/ (fst (fst a) = fst (fst b) /\
    (snd (fst a) < snd (fst b) \/ (snd (fst a) = snd (fst b) /\ snd a < snd b))))%Z.
Proof.
  destruct a as [[a1 a2] a3], b as [[b1 b2] b3]. simpl.
  destruct (Z.compare_spec a1 b1); [|split; [lia|reflexivity]|split; [discriminate|lia]].
  destruct (Z.compare_spec a2 b2); [|split; [lia|reflexivity]|split; [discriminate|lia]].
  destruct (Z.compare_spec a3 b3); split; try discriminate; try lia; reflexivity.
Qed.

Lemma lex_compare_eq (a b : Z * Z * Z) : lex_compare a b = Eq -> a = b.
Proof.
  destruct a as [[a1 a2] a3], b as [[b1 b2] b3]. simpl.
  destruct (Z.compare_spec a1 b1); try discriminate;
  destruct (Z.compare_spec a2 b2); try discriminate;
  destruct (Z.compare_spec a3 b3); try discriminate; intros _; subst; reflexivity.
Qed.

Lemma lex_compare_lt_le (a b c : Z * Z * Z) :
  lex_compare a b = Lt -> (lex_compare b c = Lt \/ lex_compare b c = Eq) ->
  lex_compare a c = Lt.
Proof.
  intros H1 [H2|H2]; [|apply lex_compare_eq in H2; subst; exact H1].
  apply lex_compare_lt in H1, H2. apply lex_compare_lt.
  destruct a as [[a1 a2] a3], b as [[b1 b2] b3], c as [[c1 c2] c3]. simpl in *. lia.
Qed.

Lemma ltb_leb_trans (a t t' : float) :
  (a <? t)%float = true -> (t <=? t')%float = true -> (a <? t')%float = true.
Proof.
  rewrite !ltb_spec, leb_spec. unfold SFltb, SFleb. intros H1 H2.
  assert (Ha : Prim2SF a <> S754_nan)
    by (intros E; rewrite E in H1; discriminate H1).
  assert (Ht : Prim2SF t <> S754_nan)
    by (intros E; rewrite E in H1; destruct (Prim2SF a); discriminate H1).
  assert (Ht' : Prim2SF t' <> S754_nan)
    by (intros E; rewrite E in H2; destruct (Prim2SF t); discriminate H2).
  rewrite SFcompare_key in H1, H2 |- * by assumption.
  rewrite (lex_compare_lt_le _ (sf_key (Prim2SF t))); [reflexivity| |].
  - destruct (lex_compare _ _); [discriminate|reflexivity|discriminate].
  - destruct (lex_compare (sf_key (Prim2SF t)) _); auto; discriminate.
Qed.

Section Tolerance.
Variables (f df : float -> float).

Lemma newton_loop_ok_prefix (tol : float) (fuel : nat) (xn ys : list float) :
  newton_loop f df tol fuel xn = Ok ys -> exists zs, ys = xn ++ zs.
Proof.
  revert xn. induction fuel as [|k IH]; intros xn H; [discriminate H|]. simpl in H.
  destruct (df (py_last xn) =? 0)%float; [discriminate H|].
  destruct (_ <? tol)%float.
  - inversion H. eauto.
  - destruct (IH _ H) as [zs ->]. rewrite <- app_assoc. eauto.
Qed.

(** With a tolerance at least as large, a successful run stops no later:
    it returns a prefix of the list. *)
Lemma newton_loop_tol_mono (tol tol' : float) (fuel : nat) (xn ys : list float) :
  newton_loop f df tol fuel xn = Ok ys -> (tol <=? tol')%float = true ->
  exists ys' zs, newton_loop f df tol' fuel xn = Ok ys' /\ ys = ys' ++ zs.
Proof.
  intros H Ht. revert xn H. induction fuel as [|k IH]; intros xn H; [discriminate H|].
  simpl in H |- *.
  destruct (df (py_last xn) =? 0)%float; [discriminate H|].
  set (d := abs (_ - py_second_last _)) in H |- *.
  destruct (d <? tol)%float eqn:Hc; destruct (d <? tol')%float eqn:Hc'.
  - injection H as <-. eexists. exists []. rewrite app_nil_r. split; reflexivity.
  - rewrite (ltb_leb_trans _ _ _ Hc Ht) in Hc'. discriminate Hc'.
  - destruct (newton_loop_ok_prefix _ _ _ _ H) as [zs ->]. eauto.
  - exact (IH _ H).
Qed.

(** Restarting at any later element of a returned list (one that is not
    the last), with the rounds already spent taken off the budget, returns
    the rest of the list. *)
Lemma newton_loop_restart_suffix (tol : float) (pre : list float) (fuel : nat)
    (x y : float) (ys : list float) :
  newton_loop f df tol fuel [x] = Ok (x :: pre ++ y :: ys) -> ys <> [] ->
  newton_loop f df tol (fuel - S (length pre)) [y] = Ok (y :: ys).
Proof.
  revert fuel x. induction pre as [|p pre IH]; intros fuel x H Hne.
  - destruct fuel as [|k]; [discriminate H|]. simpl.
    rewrite Nat.sub_0_r. exact (newton_loop_restart _ _ _ _ _ _ _ H Hne).
  - destruct fuel as [|k]; [discriminate H|].
    assert (Hp : newton_loop f df tol k [p] = Ok (p :: pre ++ y :: ys)).
    { apply (newton_loop_restart _ _ _ _ x); [exact H|destruct pre; discriminate]. }
    specialize (IH k p Hp Hne). simpl. exact IH.
Qed.
End Tolerance.

(** ** Further properties of [my_newton] *)

Section Extras.
Variable Expr : Type.
Variable free_symbols : Expr -> list string.
Variable diff : Expr -> string -> Expr.
Variable lambdify : string -> Expr -> float -> float.

Local Abbreviation my_newton := (my_newton Expr free_symbols diff lambdify).
Local Abbreviation my_newton_traced := (my_newton_traced Expr free_symbols diff lambdify).
Local Abbreviation nf := (newton_f Expr free_symbols lambdify).
Local Abbreviation ndf := (newton_df Expr free_symbols diff lambdify).

Lemma my_newton_traced_fst (e : Expr) (x0 tol : float) (max_iter : Z) :
  fst (my_newton_traced e x0 tol max_iter) = my_newton e x0 tol max_iter.
Proof. rewrite my_newton_loop. apply newton_loop_traced_outcome. Qed.

(** X1: a call that returns a list or raises [ZeroDivisionError] gives the
    same result with any larger [max_iter]. *)
Theorem X1_budget_increase (e : Expr) (x0 tol : float) (m m' : Z) (r : outcome) :
  my_newton e x0 tol m = r -> r <> NonConvergence -> (m <= m')%Z ->
  my_newton e x0 tol m' = r.
Proof.
  rewrite !my_newton_loop. intros H Hr Hle.
  apply (newton_loop_budget_up _ _ _ _ _ _ _ H Hr). lia.
Qed.

(** X2: a call that raises [ValueError] raises it with any smaller
    [max_iter] too. *)
Theorem X2_budget_decrease (e : Expr) (x0 tol : float) (m m' : Z) :
  my_newton e x0 tol m = NonConvergence -> (m' <= m)%Z ->
  my_newton e x0 tol m' = NonConvergence.
Proof.
  rewrite !my_newton_loop. intros H Hle.
  apply (newton_loop_budget_down _ _ _ _ _ _ H). lia.
Qed.

(** X3: once a call returns a list [ys], the result for every [max_iter]
    is known: [ys] when [max_iter >= len(ys) - 1], [ValueError] otherwise. *)
Theorem X3_exact_budget (e : Expr) (x0 tol : float) (m : Z) (ys : list float) :
  my_newton e x0 tol m = Ok ys ->
  forall m', my_newton e x0 tol m' =
    if (Z.of_nat (length ys - 1) <=? m')%Z then Ok ys else NonConvergence.
Proof.
  rewrite my_newton_loop. intros H m'. rewrite my_newton_loop.
  destruct (newton_loop_ok_exact _ _ _ _ _ _ H) as [H1 H2]. simpl length in H1, H2.
  destruct (Z.of_nat (length ys - 1) <=? m')%Z eqn:E.
  - apply Z.leb_le in E.
    apply (newton_loop_budget_up _ _ _ _ _ _ _ H1); [discriminate|lia].
  - apply Z.leb_gt in E. apply H2.
    destruct (newton_loop_ok_shape _ _ _ _ _ _ H) as [j [Hj [-> _]]].
    rewrite length_trajectory in E |- *. lia.
Qed.

(** X4: [ValueError] is raised only after all [max_iter] rounds have
    completed, each one appending a value (none when [max_iter <= 0]). *)
Theorem X4_nonconvergence_rounds (e : Expr) (x0 tol : float) (m : Z) :
  my_newton e x0 tol m = NonConvergence ->
  appends (snd (my_newton_traced e x0 tol m)) = Z.to_nat m.
Proof.
  rewrite <- my_newton_traced_fst. apply traced_nonconvergence_appends.
Qed.

(** X5: [ZeroDivisionError] is raised right after evaluating the derivative
    at a point where it compares equal to zero: [f] is not evaluated there,
    and fewer than [max_iter] rounds have completed. *)
Theorem X5_zero_derivative_trace (e : Expr) (x0 tol : float) (m : Z) :
  my_newton e x0 tol m = ZeroDerivative ->
  exists evs x, snd (my_newton_traced e x0 tol m) = evs ++ [EvalDf x] /\
    (ndf e x =? 0)%float = true /\ appends evs < Z.to_nat m.
Proof.
  rewrite <- my_newton_traced_fst. apply traced_zero_derivative.
Qed.

(** X6: in a call that returns [ys], [f] is evaluated exactly at the
    elements of [ys] but the last, once each and in order; never at the
    returned estimate. *)
Theorem X6_f_evaluation_points (e : Expr) (x0 tol : float) (m : Z) (ys : list float) :
  my_newton e x0 tol m = Ok ys ->
  f_points (snd (my_newton_traced e x0 tol m)) = removelast ys.
Proof.
  rewrite <- my_newton_traced_fst.
  destruct (my_newton_traced e x0 tol m) as [r evs] eqn:Ht. simpl. intros ->.
  destruct (traced_ok_f_points (nf e) (ndf e) tol (Z.to_nat m) [x0] ys evs)
    as [zs [-> Hf]]; [discriminate|exact Ht|].
  exact Hf.
Qed.

(** X7: with a tolerance that is not positive (zero, negative or NaN)
    the call never returns a list: it raises one of its two errors. *)
Theorem X7_nonpositive_tol (e : Expr) (x0 tol : float) (m : Z) (ys : list float) :
  (0 <? tol)%float = false -> my_newton e x0 tol m <> Ok ys.
Proof.
  rewrite my_newton_loop. intros Ht H.
  rewrite (newton_loop_ok_tol_pos _ _ _ _ _ _ H) in Ht. discriminate.
Qed.

(** X8: from an infinite or NaN starting point the call never returns
    a list. *)
Theorem X8_nonfinite_start (e : Expr) (x0 tol : float) (m : Z) (ys : list float) :
  fin x0 = false -> my_newton e x0 tol m <> Ok ys.
Proof. rewrite my_newton_loop. apply newton_loop_nonfinite. Qed.

(** X9: every value of a returned list is a finite float. *)
Theorem X9_result_finite (e : Expr) (x0 tol : float) (m : Z) (ys : list float) :
  my_newton e x0 tol m = Ok ys -> forall y, In y ys -> fin y = true.
Proof. rewrite my_newton_loop. apply newton_loop_ok_finite. Qed.

(** X10: restarting from an iterate [y] of a successful run, with the
    budget left at that point, returns the rest of the same sequence. *)
Theorem X10_restart (e : Expr) (x0 y tol : float) (m : Z) (pre ys : list float) :
  my_newton e x0 tol m = Ok (x0 :: pre ++ y :: ys) -> ys <> [] ->
  my_newton e y tol (m - Z.of_nat (S (length pre))) = Ok (y :: ys).
Proof.
  rewrite !my_newton_loop. intros H Hne.
  replace (Z.to_nat (m - Z.of_nat (S (length pre))))
    with (Z.to_nat m - S (length pre)) by lia.
  exact (newton_loop_restart_suffix _ _ _ _ _ _ _ _ H Hne).
Qed.

(** X11: a successful call still succeeds with a larger tolerance, and
    then returns a prefix of the list it returned before. *)
Theorem X11_tol_monotone (e : Expr) (x0 tol tol' : float) (m : Z) (ys : list float) :
  my_newton e x0 tol m = Ok ys -> (tol <=? tol')%float = true ->
  exists ys' zs, my_newton e x0 tol' m = Ok ys' /\ ys = ys' ++ zs.
Proof. rewrite !my_newton_loop. apply newton_loop_tol_mono. Qed.
End Extras.

Lemma X1_witness :
  Sym.run Sym.quadratic 3%float default_tol 100 = Sym.run Sym.quadratic 3%float default_tol 5.
Proof.
  apply (X1_budget_increase Sym.expr Sym.free_symbols Sym.diff Sym.lambdify
           Sym.quadratic 3%float default_tol 5%Z 100%Z (Sym.run Sym.quadratic 3%float default_tol 5));
    [reflexivity|vm_compute; discriminate|lia].
Defined.

Lemma X2_witness : Sym.run Sym.cube 1000%float default_tol 2 = NonConvergence.
Proof.
  apply (X2_budget_decrease Sym.expr Sym.free_symbols Sym.diff Sym.lambdify
           Sym.cube 1000%float default_tol 3%Z 2%Z); [vm_compute; reflexivity|lia].
Defined.

Lemma X3_witness :
  Sym.run Sym.quadratic 3%float default_tol 4 = NonConvergence /\
  Sym.run Sym.quadratic 3%float default_tol 5 = Sym.run Sym.quadratic 3%float default_tol 20.
Proof.
  assert (H : Sym.run Sym.quadratic 3%float default_tol 20 =
              Ok [3%float; 0x1.1555555555555p+1%float; 0x1.00d20d20d20d2p+1%float;
                  0x1.000055e649f22p+1%float; 0x1.000000000e695p+1%float; 2%float])
    by (vm_compute; reflexivity).
  split.
  - refine (eq_trans (X3_exact_budget Sym.expr Sym.free_symbols Sym.diff Sym.lambdify
                        Sym.quadratic 3%float default_tol 20%Z _ H 4%Z) _).
    reflexivity.
  - rewrite H.
    refine (eq_trans (X3_exact_budget Sym.expr Sym.free_symbols Sym.diff Sym.lambdify
                        Sym.quadratic 3%float default_tol 20%Z _ H 5%Z) _).
    reflexivity.
Defined.

Lemma X4_witness : appends (snd (Sym.traced Sym.cube 1000%float default_tol 3)) = 3.
Proof.
  apply (X4_nonconvergence_rounds Sym.expr Sym.free_symbols Sym.diff Sym.lambdify
           Sym.cube 1000%float default_tol 3%Z).
  vm_compute. reflexivity.
Defined.

Lemma X5_witness :
  exists evs x, snd (Sym.traced (Sym.Num 2%float) 1%float default_tol 20) = evs ++ [EvalDf x] /\
    (Sym.ndf (Sym.Num 2%float) x =? 0)%float = true /\ appends evs < 20.
Proof.
  apply (X5_zero_derivative_trace Sym.expr Sym.free_symbols Sym.diff Sym.lambdify
           (Sym.Num 2%float) 1%float default_tol 20%Z).
  vm_compute. reflexivity.
Defined.

Lemma X6_witness :
  exists ys, Sym.run Sym.quadratic 3%float default_tol 20 = Ok ys /\
    f_points (snd (Sym.traced Sym.quadratic 3%float default_tol 20)) = removelast ys.
Proof.
  eexists. split; [vm_compute; reflexivity|].
  apply (X6_f_evaluation_points Sym.expr Sym.free_symbols Sym.diff Sym.lambdify
           Sym.quadratic 3%float default_tol 20%Z).
  vm_compute. reflexivity.
Defined.

Lemma X7_witness : ~ exists ys, Sym.run Sym.quadratic 3%float 0%float 20 = Ok ys.
Proof.
  intros [ys H].
  apply (X7_nonpositive_tol Sym.expr Sym.free_symbols Sym.diff Sym.lambdify
           Sym.quadratic 3%float 0%float 20%Z ys); [vm_compute; reflexivity|exact H].
Defined.

Lemma X8_witness : ~ exists ys, Sym.run Sym.quadratic infinity default_tol 20 = Ok ys.
Proof.
  intros [ys H].
  apply (X8_nonfinite_start Sym.expr Sym.free_symbols Sym.diff Sym.lambdify
           Sym.quadratic infinity default_tol 20%Z ys); [vm_compute; reflexivity|exact H].
Defined.

Lemma X9_witness :
  exists ys, Sym.run Sym.quadratic 3%float default_tol 20 = Ok ys /\
    forall y, In y ys -> fin y = true.
Proof.
  eexists. split; [vm_compute; reflexivity|].
  apply (X9_result_finite Sym.expr Sym.free_symbols Sym.diff Sym.lambdify
           Sym.quadratic 3%float default_tol 20%Z).
  vm_compute. reflexivity.
Defined.

Lemma X10_witness :
  Sym.run Sym.quadratic 0x1.00d20d20d20d2p+1%float default_tol 18 =
  Ok [0x1.00d20d20d20d2p+1%float; 0x1.000055e649f22p+1%float; 0x1.000000000e695p+1%float; 2%float].
Proof.
  apply (X10_restart Sym.expr Sym.free_symbols Sym.diff Sym.lambdify
           Sym.quadratic 3%float 0x1.00d20d20d20d2p+1%float default_tol 20%Z
           [0x1.1555555555555p+1%float]
           [0x1.000055e649f22p+1%float; 0x1.000000000e695p+1%float; 2%float]);
    [vm_compute; reflexivity|discriminate].
Defined.

Lemma X11_witness :
  exists ys' zs, Sym.run Sym.quadratic 3%float 0.5%float 20 = Ok ys' /\
    [3%float; 0x1.1555555555555p+1%float; 0x1.00d20d20d20d2p+1%float;
     0x1.000055e649f22p+1%float; 0x1.000000000e695p+1%float; 2%float] = ys' ++ zs.
Proof.
  apply (X11_tol_monotone Sym.expr Sym.free_symbols Sym.diff Sym.lambdify
           Sym.quadratic 3%float default_tol 0.5%float 20%Z);
    vm_compute; reflexivity.
Defined.
